(** * Login form and student CRUD screen (src/src/screens/LoginScreen.tsx)

    Shallow embedding of the two screens of the application:
    - [handleLogin] of [LoginScreen] (the axios login call);
    - [saveStudent], [deleteStudent], [editStudent], [saveToStorage] and
      [loadStudents] of the records [HomeScreen], with AsyncStorage as a
      string-keyed map and [JSON.stringify] / [JSON.parse] written out over
      UTF-16 code units. *)

From Stdlib Require Import Ascii.
From stdpp Require Import base list gmap strings pretty.

(** ** JavaScript strings *)

(** A JS string is a sequence of UTF-16 code units. *)
Definition jsstr := list N.

(** A string literal of the source (all of them are ASCII). *)
Definition lit (s : string) : jsstr :=
  map (fun c => N_of_ascii c) (String.list_ascii_of_string s).

(** JS truthiness of a string: only the empty string is falsy. *)
Definition truthy (s : jsstr) : bool :=
  match s with [] => false | _ => true end.

(** [Date.now().toString()]: the decimal rendering of the millisecond clock. *)
Definition now_toString (now : N) : jsstr := lit (pretty now).

(** ** LoginScreen.handleLogin *)

Module Login.

(** What the network gives back for [axios.post('https://reqres.in/api/login', ...)]:
    a transport failure, or an HTTP response with a status and the [token]
    field of its JSON body ([None] when the body has no [token]). *)
Inductive HttpResult :=
| NetworkError
| Response (status : Z) (token : option jsstr).

(** axios rejects on transport failure and on a status outside 2xx (its
    default [validateStatus]); otherwise it resolves with [response.data]. *)
Definition axios_post (r : HttpResult) : option (option jsstr) :=
  match r with
  | NetworkError => None
  | Response status tok =>
      if (200 <=? status)%Z && (status <? 300)%Z then Some tok else None
  end.

(** Observable effects of the handler. *)
Inductive LoginEffect :=
| LAlert (title msg : string)
| LPost (email password : jsstr)
| LReplace (screen : string).

(** [const handleLogin = async () => { ... }] *)
Definition handleLogin (email password : jsstr) (r : HttpResult) : list LoginEffect :=
  if negb (truthy email) || negb (truthy password) then
    [LAlert "Error" "Email dan password wajib diisi!"]
  else
    LPost email password ::
    match axios_post r with
    | None => [LAlert "Gagal" "Email atau password salah"]
    | Some tok =>
        match tok with
        | Some t =>
            if truthy t then [LAlert "Sukses" "Login berhasil!"; LReplace "Home"]
            else []
        | None => []
        end
    end.

(** The user leaves the login screen exactly when a [navigation.replace] is issued. *)
Definition navigates (effs : list LoginEffect) : bool :=
  existsb (fun e => match e with LReplace _ => true | _ => false end) effs.

Definition generic_failure_shown (effs : list LoginEffect) : Prop :=
  In (LAlert "Gagal" "Email atau password salah") effs.

End Login.

(** ** The records screen *)

(** [interface Student] *)
Record Student := mkStudent {
  id : jsstr;
  first_name : jsstr;
  last_name : jsstr;
  email : jsstr;
  age : jsstr;
  grade : jsstr
}.

#[global] Instance Student_eq_dec : EqDecision Student.
Proof. solve_decision. Qed.

(** The [useState] variables of [HomeScreen] (the modal state is left out: no
    operation below touches it), together with the AsyncStorage contents. *)
Record HomeState := mkHome {
  students : list Student;
  name : jsstr;
  f_email : jsstr;
  f_age : jsstr;
  f_grade : jsstr;
  editId : option jsstr;
  storage : gmap string jsstr
}.

(** Alerts shown by the screen. *)
Inductive Effect :=
| Alert (title msg : string).

(** ** JSON.stringify and JSON.parse

    JSON values as [JSON.parse] builds them and [JSON.stringify] reads them.
    Numbers are left out: the serialized records hold strings only. *)
Module Json.

Local Open Scope N_scope.
Local Set Warnings "-register-all".

Inductive json :=
| JNull
| JBool (b : bool)
| JStr (s : jsstr)
| JArr (l : list json)
| JObj (m : list (jsstr * json)).

(** Lower-case hexadecimal digit, as in the spec's [UnicodeEscape]. *)
Definition hex_digit (d : N) : N := if (d <? 10)%N then 48 + d else 87 + d.

(** [\uXXXX] for a code unit. *)
Definition unicode_escape (u : N) : jsstr :=
  [92; 117; hex_digit (N.shiftr u 12 `mod` 16); hex_digit (N.shiftr u 8 `mod` 16);
   hex_digit (N.shiftr u 4 `mod` 16); hex_digit (u `mod` 16)].

Definition is_high (u : N) : bool := (55296 <=? u)%N && (u <=? 56319)%N.
Definition is_low (u : N) : bool := (56320 <=? u)%N && (u <=? 57343)%N.

(** One code point that is not a lone surrogate (QuoteJSONString, step 2). *)
Definition escape_unit (u : N) : jsstr :=
  if (u =? 8)%N then [92; 98]
  else if (u =? 9)%N then [92; 116]
  else if (u =? 10)%N then [92; 110]
  else if (u =? 12)%N then [92; 102]
  else if (u =? 13)%N then [92; 114]
  else if (u =? 34)%N then [92; 34]
  else if (u =? 92)%N then [92; 92]
  else if (u <? 32)%N then unicode_escape u
  else [u].

(** The body of QuoteJSONString: surrogate pairs are copied, lone surrogates
    are written as [\uXXXX]. *)
Fixpoint quote_units (s : jsstr) : jsstr :=
  match s with
  | [] => []
  | u :: r =>
      if is_high u then
        match r with
        | v :: r' => if is_low v then u :: v :: quote_units r'
                     else unicode_escape u ++ quote_units r
        | [] => unicode_escape u
        end
      else if is_low u then unicode_escape u ++ quote_units r
      else escape_unit u ++ quote_units r
  end.

Definition quote (s : jsstr) : jsstr := 34 :: quote_units s ++ [34].

(** [JSON.stringify] without indentation. *)
Fixpoint stringify (v : json) : jsstr :=
  match v with
  | JNull => lit "null"
  | JBool true => lit "true"
  | JBool false => lit "false"
  | JStr s => quote s
  | JArr l =>
      91 :: (fix elems (l : list json) : jsstr :=
               match l with
               | [] => []
               | [x] => stringify x
               | x :: l' => stringify x ++ 44 :: elems l'
               end) l ++ [93]
  | JObj m =>
      123 :: (fix members (m : list (jsstr * json)) : jsstr :=
                match m with
                | [] => []
                | [(k, x)] => quote k ++ 58 :: stringify x
                | (k, x) :: m' => quote k ++ 58 :: stringify x ++ 44 :: members m'
                end) m ++ [125]
  end.

(** Comma-separated concatenation, the shape of the two inner loops above. *)
Fixpoint join_comma (l : list jsstr) : jsstr :=
  match l with
  | [] => []
  | [x] => x
  | x :: l' => x ++ 44 :: join_comma l'
  end.

Definition member_text (p : jsstr * json) : jsstr := quote p.1 ++ 58 :: stringify p.2.

(** JSON whitespace: space, tab, line feed, carriage return. *)
Fixpoint skip_ws (s : jsstr) : jsstr :=
  match s with
  | u :: r => if (u =? 32)%N || (u =? 9)%N || (u =? 10)%N || (u =? 13)%N
              then skip_ws r else s
  | [] => []
  end.

Definition hex_val (c : N) : option N :=
  if (48 <=? c)%N && (c <=? 57)%N then Some (c - 48)%N
  else if (97 <=? c)%N && (c <=? 102)%N then Some (c - 87)%N
  else if (65 <=? c)%N && (c <=? 70)%N then Some (c - 55)%N
  else None.

(** The one-character escapes: quote, backslash, slash, b, f, n, r, t. *)
Definition simple_escape (c : N) : option N :=
  if (c =? 34)%N then Some 34%N
  else if (c =? 92)%N then Some 92%N
  else if (c =? 47)%N then Some 47%N
  else if (c =? 98)%N then Some 8%N
  else if (c =? 102)%N then Some 12%N
  else if (c =? 110)%N then Some 10%N
  else if (c =? 114)%N then Some 13%N
  else if (c =? 116)%N then Some 9%N
  else None.

(** The body of a JSON string literal after its opening quote: the decoded
    code units and the input after the closing quote. *)
Fixpoint parse_str (s : jsstr) : option (jsstr * jsstr) :=
  match s with
  | [] => None
  | u :: r =>
      if (u =? 34)%N then Some ([], r)
      else if (u =? 92)%N then
        match r with
        | [] => None
        | c :: r1 =>
            if (c =? 117)%N then
              match r1 with
              | h1 :: h2 :: h3 :: h4 :: r2 =>
                  match hex_val h1, hex_val h2, hex_val h3, hex_val h4 with
                  | Some d1, Some d2, Some d3, Some d4 =>
                      match parse_str r2 with
                      | Some (t, rest) =>
                          Some ((4096 * d1 + 256 * d2 + 16 * d3 + d4)%N :: t, rest)
                      | None => None
                      end
                  | _, _, _, _ => None
                  end
              | _ => None
              end
            else
              match simple_escape c, parse_str r1 with
              | Some e, Some (t, rest) => Some (e :: t, rest)
              | _, _ => None
              end
        end
      else if (u <? 32)%N then None
      else
        match parse_str r with
        | Some (t, rest) => Some (u :: t, rest)
        | None => None
        end
  end.

Fixpoint strip_prefix (p s : jsstr) : option jsstr :=
  match p, s with
  | [], _ => Some s
  | a :: p', b :: s' => if (a =? b)%N then strip_prefix p' s' else None
  | _ :: _, [] => None
  end.

(** A JSON value, an array tail and an object tail, by recursion on a fuel
    bound ([parse] supplies one more than the length of the text, which no
    run exhausts). *)
Fixpoint parse_value (fuel : nat) (s : jsstr) : option (json * jsstr) :=
  match fuel with
  | O => None
  | S f =>
      match skip_ws s with
      | [] => None
      | c :: r =>
          if (c =? 34)%N then
            match parse_str r with Some (t, r') => Some (JStr t, r') | None => None end
          else if (c =? 91)%N then
            match skip_ws r with
            | d :: r' =>
                if (d =? 93)%N then Some (JArr [], r')
                else match parse_elems f r with
                     | Some (l, r'') => Some (JArr l, r'') | None => None end
            | [] => None
            end
          else if (c =? 123)%N then
            match skip_ws r with
            | d :: r' =>
                if (d =? 125)%N then Some (JObj [], r')
                else match parse_members f r with
                     | Some (m, r'') => Some (JObj m, r'') | None => None end
            | [] => None
            end
          else
            match strip_prefix (lit "null") (c :: r) with
            | Some r' => Some (JNull, r')
            | None =>
              match strip_prefix (lit "true") (c :: r) with
              | Some r' => Some (JBool true, r')
              | None =>
                match strip_prefix (lit "false") (c :: r) with
                | Some r' => Some (JBool false, r')
                | None => None
                end
              end
            end
      end
  end
with parse_elems (fuel : nat) (s : jsstr) : option (list json * jsstr) :=
  match fuel with
  | O => None
  | S f =>
      match parse_value f s with
      | None => None
      | Some (v, r) =>
          match skip_ws r with
          | c :: r' =>
              if (c =? 44)%N then
                match parse_elems f r' with
                | Some (l, r'') => Some (v :: l, r'') | None => None end
              else if (c =? 93)%N then Some ([v], r')
              else None
          | [] => None
          end
      end
  end
with parse_members (fuel : nat) (s : jsstr) : option (list (jsstr * json) * jsstr) :=
  match fuel with
  | O => None
  | S f =>
      match skip_ws s with
      | q :: r =>
          if (q =? 34)%N then
            match parse_str r with
            | None => None
            | Some (k, r1) =>
                match skip_ws r1 with
                | c :: r2 =>
                    if (c =? 58)%N then
                      match parse_value f r2 with
                      | None => None
                      | Some (v, r3) =>
                          match skip_ws r3 with
                          | d :: r4 =>
                              if (d =? 44)%N then
                                match parse_members f r4 with
                                | Some (m, r5) => Some ((k, v) :: m, r5)
                                | None => None
                                end
                              else if (d =? 125)%N then Some ([(k, v)], r4)
                              else None
                          | [] => None
                          end
                      end
                    else None
                | [] => None
                end
            end
          else None
      | [] => None
      end
  end.

(** [JSON.parse]: [None] is the SyntaxError it throws. *)
Definition parse (s : jsstr) : option json :=
  match parse_value (S (length s)) s with
  | Some (v, r) => match skip_ws r with [] => Some v | _ => None end
  | None => None
  end.

(** Property read on a parsed object: the last occurrence of a key wins. *)
Definition get (k : jsstr) (m : list (jsstr * json)) : option json :=
  match list_find (fun p => fst p = k) (reverse m) with
  | Some (_, (_, v)) => Some v
  | None => None
  end.

End Json.

Import Json.

(** A [Student] object as [JSON.stringify] sees it: its own properties in
    insertion order, which is the order of the object literals of the source. *)
Definition student_to_json (s : Student) : json :=
  JObj [(lit "id", JStr (id s)); (lit "first_name", JStr (first_name s));
        (lit "last_name", JStr (last_name s)); (lit "email", JStr (email s));
        (lit "age", JStr (age s)); (lit "grade", JStr (grade s))].

(** Reading a parsed object back as a [Student]: each property is read by
    name.  A parsed value without six string properties falls outside the
    [Student] type the source casts to, and is not given a meaning here. *)
Definition student_of_json (v : json) : option Student :=
  match v with
  | JObj m =>
      match get (lit "id") m, get (lit "first_name") m, get (lit "last_name") m,
            get (lit "email") m, get (lit "age") m, get (lit "grade") m with
      | Some (JStr i), Some (JStr f), Some (JStr l), Some (JStr e),
        Some (JStr a), Some (JStr g) => Some (mkStudent i f l e a g)
      | _, _, _, _, _, _ => None
      end
  | _ => None
  end.

Definition students_of_json (v : json) : option (list Student) :=
  match v with
  | JArr l => mapM student_of_json l
  | _ => None
  end.

(** The AsyncStorage key. *)
Definition students_key : string := "students".

(** [saveToStorage(data)]: [AsyncStorage.setItem('students', JSON.stringify(data))].
    The write is modelled as succeeding; a rejected write is only logged. *)
Definition saveToStorage (data : list Student) (kv : gmap string jsstr) : gmap string jsstr :=
  <[students_key := stringify (JArr (map student_to_json data))]> kv.

Definition set_students (l : list Student) (st : HomeState) : HomeState :=
  mkHome l (name st) (f_email st) (f_age st) (f_grade st) (editId st) (storage st).

(** [loadStudents], run once at mount: [getItem] answers [null] for a missing
    key; a falsy string is ignored; a [JSON.parse] failure is caught and logged. *)
Definition loadStudents (st : HomeState) : HomeState :=
  match storage st !! students_key with
  | Some storedData =>
      if truthy storedData then
        match parse storedData with
        | Some v =>
            match students_of_json v with
            | Some l => set_students l st
            | None => st
            end
        | None => st
        end
      else st
  | None => st
  end.

(** The state of a freshly mounted screen over the given storage, before
    and after its mount effect. *)
Definition mount_state (kv : gmap string jsstr) : HomeState :=
  mkHome [] [] [] [] [] None kv.

Definition restart (kv : gmap string jsstr) : HomeState := loadStudents (mount_state kv).

(** [saveStudent]: [now] is the value [Date.now()] returns during the call. *)
Definition saveStudent (now : N) (st : HomeState) : HomeState * list Effect :=
  if negb (truthy (name st)) || negb (truthy (f_email st))
     || negb (truthy (f_age st)) || negb (truthy (f_grade st)) then
    (st, [Alert "Error" "Semua kolom harus diisi!"])
  else
    let add_branch :=
      (students st ++ [mkStudent (now_toString now) (name st) [] (f_email st)
                                 (f_age st) (f_grade st)],
       editId st, Alert "Sukses" "Siswa berhasil ditambahkan!") in
    let '(updatedStudents, editId', alert) :=
      match editId st with
      | Some e =>
          if truthy e then
            (map (fun s => if decide (id s = e)
                           then mkStudent e (name st) [] (f_email st) (f_age st) (f_grade st)
                           else s) (students st),
             None, Alert "Sukses" "Data siswa berhasil diperbarui!")
          else add_branch
      | None => add_branch
      end in
    (mkHome updatedStudents [] [] [] [] editId'
            (saveToStorage updatedStudents (storage st)),
     [alert]).

(** [deleteStudent(id)]: the confirmation dialog, then, when the user picks
    "Hapus" ([confirm = true]), the filter, the write and the success alert. *)
Definition deleteStudent (i : jsstr) (confirm : bool) (st : HomeState) : HomeState * list Effect :=
  let ask := Alert "Konfirmasi" "Apakah Anda yakin ingin menghapus siswa ini?" in
  if confirm then
    let updatedStudents := filter (fun s => id s <> i) (students st) in
    (mkHome updatedStudents (name st) (f_email st) (f_age st) (f_grade st) (editId st)
            (saveToStorage updatedStudents (storage st)),
     [ask; Alert "Sukses" "Siswa berhasil dihapus!"])
  else (st, [ask]).

(** [editStudent(student)] *)
Definition editStudent (s : Student) (st : HomeState) : HomeState :=
  mkHome (students st) (first_name s) (email s) (age s) (grade s) (Some (id s)) (storage st).

(** Typing into the four [TextInput]s. *)
Definition setFields (n e a g : jsstr) (st : HomeState) : HomeState :=
  mkHome (students st) n e a g (editId st) (storage st).

(** The user actions of the screen. *)
Inductive Op :=
| OpType (n e a g : jsstr)
| OpEdit (s : Student)
| OpSave (now : N)
| OpDelete (i : jsstr) (confirm : bool).

Definition step (st : HomeState) (o : Op) : HomeState :=
  match o with
  | OpType n e a g => setFields n e a g st
  | OpEdit s => editStudent s st
  | OpSave now => fst (saveStudent now st)
  | OpDelete i c => fst (deleteStudent i c st)
  end.

Definition run (st : HomeState) (ops : list Op) : HomeState := foldl step st ops.

(** A well-formed JS string: every code unit is 16 bits wide. *)
Definition wf_jsstr (s : jsstr) : Prop := Forall (fun u => (u < 65536)%N) s.

Definition wf_student (s : Student) : Prop :=
  wf_jsstr (id s) /\ wf_jsstr (first_name s) /\ wf_jsstr (last_name s) /\
  wf_jsstr (email s) /\ wf_jsstr (age s) /\ wf_jsstr (grade s).

(** The clock readings of the saves of a run are at least [b] and strictly
    increasing. *)
Fixpoint clock_ok (b : N) (ops : list Op) : Prop :=
  match ops with
  | [] => True
  | OpSave t :: ops' => (b <= t)%N /\ clock_ok (t + 1) ops'
  | _ :: ops' => clock_ok b ops'
  end.

(** The clock readings of the saves of a run. *)
Fixpoint save_times (ops : list Op) : list N :=
  match ops with
  | [] => []
  | OpSave t :: ops' => t :: save_times ops'
  | _ :: ops' => save_times ops'
  end.

(** The id invariant of the stored records: ids are pairwise distinct, and
    each is [Date.now().toString()] for a clock reading [t] below [b] that
    satisfies [P]. *)
Definition ids_inv (P : N -> Prop) (b : N) (l : list Student) : Prop :=
  NoDup (map id l) /\
  forall s, s ∈ l -> exists t, P t /\ (t < b)%N /\ id s = now_toString t.

(** The four form fields are filled in. *)
Definition fields_valid (st : HomeState) : Prop :=
  name st <> [] /\ f_email st <> [] /\ f_age st <> [] /\ f_grade st <> [].

(** * Proofs *)

(** ** JSON round trip of string literals *)

Section JsonStrings.
Local Open Scope N_scope.

Lemma unicode_escape_digits u :
  u < 65536 ->
  4096 * (N.shiftr u 12 `mod` 16) + 256 * (N.shiftr u 8 `mod` 16)
  + 16 * (N.shiftr u 4 `mod` 16) + u `mod` 16 = u.
Proof.
  intros H. rewrite !N.shiftr_div_pow2.
  change (2 ^ 12) with 4096; change (2 ^ 8) with 256; change (2 ^ 4) with 16.
  assert (E1 : u / 256 / 16 = u / 4096) by (rewrite N.Div0.div_div; reflexivity).
  assert (E2 : u / 16 / 16 = u / 256) by (rewrite N.Div0.div_div; reflexivity).
  pose proof (N.div_mod u 16 ltac:(lia)) as H0.
  pose proof (N.div_mod (u / 256) 16 ltac:(lia)) as H1.
  pose proof (N.div_mod (u / 16) 16 ltac:(lia)) as H2.
  assert (u / 4096 < 16) by (apply N.Div0.div_lt_upper_bound; lia).
  rewrite (N.mod_small (u / 4096)) by lia.
  rewrite E1 in H1. rewrite E2 in H2.
  generalize dependent (u `mod` 16); generalize dependent (u / 16 `mod` 16);
  generalize dependent (u / 256 `mod` 16).
  generalize dependent (u / 16); generalize dependent (u / 256);
  generalize dependent (u / 4096). intros. lia.
Qed.

Lemma hex_val_digit d : d < 16 -> hex_val (hex_digit d) = Some d.
Proof.
  intros Hd. unfold hex_digit, hex_val.
  destruct (N.ltb_spec d 10);
  repeat match goal with
         | |- context [?a <=? ?b] => destruct (N.leb_spec a b)
         end; simpl; try lia; f_equal; lia.
Qed.

Ltac mod16 := apply N.mod_lt; lia.

Lemma parse_str_unicode_escape u k :
  u < 65536 ->
  parse_str (unicode_escape u ++ k) =
  match parse_str k with Some (t, r) => Some (u :: t, r) | None => None end.
Proof.
  intros Hu. unfold unicode_escape. cbn [app parse_str N.eqb Pos.eqb].
  rewrite !hex_val_digit by mod16.
  rewrite unicode_escape_digits by exact Hu.
  destruct (parse_str k) as [[t r]|]; reflexivity.
Qed.

Lemma parse_str_raw u k :
  32 <= u -> u <> 34 -> u <> 92 ->
  parse_str (u :: k) =
  match parse_str k with Some (t, r) => Some (u :: t, r) | None => None end.
Proof.
  intros H1 H2 H3. cbn [parse_str].
  destruct (N.eqb_spec u 34); [lia|].
  destruct (N.eqb_spec u 92); [lia|].
  destruct (N.ltb_spec u 32); [lia|]. reflexivity.
Qed.

Lemma parse_str_escape_unit u k :
  u < 65536 ->
  parse_str (escape_unit u ++ k) =
  match parse_str k with Some (t, r) => Some (u :: t, r) | None => None end.
Proof.
  intros Hu. unfold escape_unit.
  destruct (N.eqb_spec u 8) as [->|];
    [cbn; destruct (parse_str k) as [[]|]; reflexivity|].
  destruct (N.eqb_spec u 9) as [->|];
    [cbn; destruct (parse_str k) as [[]|]; reflexivity|].
  destruct (N.eqb_spec u 10) as [->|];
    [cbn; destruct (parse_str k) as [[]|]; reflexivity|].
  destruct (N.eqb_spec u 12) as [->|];
    [cbn; destruct (parse_str k) as [[]|]; reflexivity|].
  destruct (N.eqb_spec u 13) as [->|];
    [cbn; destruct (parse_str k) as [[]|]; reflexivity|].
  destruct (N.eqb_spec u 34) as [->|];
    [cbn; destruct (parse_str k) as [[]|]; reflexivity|].
  destruct (N.eqb_spec u 92) as [->|];
    [cbn; destruct (parse_str k) as [[]|]; reflexivity|].
  destruct (N.ltb_spec u 32).
  - apply parse_str_unicode_escape; exact Hu.
  - apply parse_str_raw; lia.
Qed.

Lemma is_high_ge u : is_high u = true -> 55296 <= u <= 56319.
Proof. unfold is_high. intros H. apply andb_true_iff in H as [H1 H2].
  apply N.leb_le in H1, H2. lia. Qed.

Lemma is_low_ge u : is_low u = true -> 56320 <= u <= 57343.
Proof. unfold is_low. intros H. apply andb_true_iff in H as [H1 H2].
  apply N.leb_le in H1, H2. lia. Qed.

Lemma parse_str_quote_units_lt (n : nat) (s k : jsstr) :
  (length s < n)%nat -> wf_jsstr s ->
  parse_str (quote_units s ++ 34 :: k) = Some (s, k).
Proof.
  revert s k. induction n as [|n IH]; intros s k Hlen Hwf; [simpl in Hlen; lia|].
  destruct s as [|u r]; [reflexivity|].
  inversion Hwf as [|? ? Hu Hr]; subst. simpl in Hlen.
  cbn [quote_units]. destruct (is_high u) eqn:Eh.
  - apply is_high_ge in Eh. destruct r as [|v r'].
    + rewrite parse_str_unicode_escape by exact Hu. reflexivity.
    + inversion Hr as [|? ? Hv Hr']; subst. simpl in Hlen.
      destruct (is_low v) eqn:El.
      * apply is_low_ge in El.
        rewrite <- !app_comm_cons.
        rewrite parse_str_raw by lia. rewrite parse_str_raw by lia.
        rewrite IH by (simpl; lia || exact Hr'). reflexivity.
      * rewrite <- app_assoc, parse_str_unicode_escape by exact Hu.
        rewrite IH by (simpl; lia || exact Hr). reflexivity.
  - destruct (is_low u).
    + rewrite <- app_assoc, parse_str_unicode_escape by exact Hu.
      rewrite IH by (lia || exact Hr). reflexivity.
    + rewrite <- app_assoc, parse_str_escape_unit by exact Hu.
      rewrite IH by (lia || exact Hr). reflexivity.
Qed.

Lemma parse_str_quote_units (s k : jsstr) :
  wf_jsstr s -> parse_str (quote_units s ++ 34 :: k) = Some (s, k).
Proof. apply (parse_str_quote_units_lt (S (length s))). lia. Qed.

Lemma quote_app (s k : jsstr) : quote s ++ k = 34 :: quote_units s ++ 34 :: k.
Proof. unfold quote. rewrite <- app_comm_cons, <- app_assoc. reflexivity. Qed.

Lemma parse_value_quote (f : nat) (s k : jsstr) :
  wf_jsstr s -> parse_value (S f) (quote s ++ k) = Some (JStr s, k).
Proof.
  intros Hwf. rewrite quote_app. cbn [parse_value skip_ws orb N.eqb Pos.eqb].
  rewrite parse_str_quote_units by exact Hwf. reflexivity.
Qed.

Lemma parse_value_quote_fuel (f : nat) (s k : jsstr) :
  wf_jsstr s -> (1 <= f)%nat -> parse_value f (quote s ++ k) = Some (JStr s, k).
Proof.
  intros Hwf Hf. destruct f as [|f]; [lia|]. apply parse_value_quote, Hwf.
Qed.

End JsonStrings.

(** ** JSON round trip of arrays of string-valued objects *)

Section JsonValues.

Lemma join_comma_cons2 (x y : jsstr) (l : list jsstr) :
  join_comma (x :: y :: l) = x ++ 44%N :: join_comma (y :: l).
Proof. reflexivity. Qed.

Lemma stringify_JArr (l : list json) :
  stringify (JArr l) = 91%N :: join_comma (map stringify l) ++ [93%N].
Proof.
  cbn [stringify]. f_equal. f_equal.
  induction l as [|x l IH]; [reflexivity|].
  destruct l as [|y l]; [reflexivity|].
  rewrite IH. reflexivity.
Qed.

Lemma stringify_JObj (m : list (jsstr * json)) :
  stringify (JObj m) = 123%N :: join_comma (map member_text m) ++ [125%N].
Proof.
  cbn [stringify]. f_equal. f_equal.
  induction m as [|[k x] m IH]; [reflexivity|].
  destruct m as [|[k' y] m]; [reflexivity|].
  rewrite IH. cbn [map]. rewrite join_comma_cons2.
  unfold member_text. cbn [fst snd]. rewrite <- app_assoc. reflexivity.
Qed.

Lemma parse_elems_join (P : json -> Prop) (c : nat) :
  (forall v f k, P v -> (c <= f)%nat -> parse_value f (stringify v ++ k) = Some (v, k)) ->
  forall (l : list json) (f : nat) (k : jsstr),
    l <> [] -> Forall P l -> (length l + c <= f)%nat ->
    parse_elems f (join_comma (map stringify l) ++ 93%N :: k) = Some (l, k).
Proof.
  intros HP l. induction l as [|x l IH]; intros f k Hne Hall Hf; [done|].
  inversion Hall as [|? ? Hx Hl]; subst. simpl in Hf.
  destruct f as [|f]; [lia|].
  destruct l as [|y l].
  - cbn [map join_comma parse_elems]. rewrite HP by (done || lia).
    reflexivity.
  - change (map stringify (x :: y :: l)) with (stringify x :: map stringify (y :: l)).
    change (map stringify (y :: l)) with (stringify y :: map stringify l).
    rewrite join_comma_cons2, <- app_assoc, <- app_comm_cons.
    change (stringify y :: map stringify l) with (map stringify (y :: l)).
    cbn [parse_elems]. rewrite HP by (done || lia).
    cbn [skip_ws orb N.eqb Pos.eqb].
    rewrite (IH f k) by (done || simpl in *; lia). reflexivity.
Qed.

(** A member whose value is a string. *)
Definition str_member (p : jsstr * json) : Prop :=
  wf_jsstr p.1 /\ exists s, p.2 = JStr s /\ wf_jsstr s.

Lemma member_text_app (p : jsstr * json) (s k : jsstr) :
  p.2 = JStr s ->
  member_text p ++ k = 34%N :: quote_units p.1 ++ 34%N :: 58%N :: quote s ++ k.
Proof.
  intros Hp. unfold member_text. rewrite Hp. cbn [stringify].
  rewrite <- app_assoc, quote_app. reflexivity.
Qed.

Lemma parse_members_join (m : list (jsstr * json)) (f : nat) (k : jsstr) :
  m <> [] -> Forall str_member m -> (length m + 1 <= f)%nat ->
  parse_members f (join_comma (map member_text m) ++ 125%N :: k) = Some (m, k).
Proof.
  revert f k. induction m as [|p m IH]; intros f k Hne Hall Hf; [done|].
  inversion Hall as [|? ? [Hk [s [Hs Hws]]] Hm]; subst. simpl in Hf.
  destruct f as [|f]; [lia|].
  destruct m as [|q m].
  - cbn [map join_comma]. rewrite (member_text_app p s) by exact Hs.
    cbn [parse_members skip_ws orb N.eqb Pos.eqb].
    rewrite parse_str_quote_units by exact Hk.
    cbn [skip_ws orb N.eqb Pos.eqb].
    rewrite parse_value_quote_fuel by (exact Hws || lia).
    cbn [skip_ws orb N.eqb Pos.eqb]. destruct p; simpl in Hs; subst; reflexivity.
  - change (map member_text (p :: q :: m)) with (member_text p :: member_text q :: map member_text m).
    rewrite join_comma_cons2, <- app_assoc, <- app_comm_cons.
    change (member_text q :: map member_text m) with (map member_text (q :: m)).
    rewrite (member_text_app p s) by exact Hs.
    cbn [parse_members skip_ws orb N.eqb Pos.eqb].
    rewrite parse_str_quote_units by exact Hk.
    cbn [skip_ws orb N.eqb Pos.eqb].
    rewrite parse_value_quote_fuel by (exact Hws || simpl in Hf; lia).
    cbn [skip_ws orb N.eqb Pos.eqb].
    rewrite (IH f k) by (done || simpl in *; lia).
    destruct p; simpl in Hs; subst; reflexivity.
Qed.

Lemma join_members_head (p : jsstr * json) (m : list (jsstr * json)) (k : jsstr) :
  exists t, join_comma (map member_text (p :: m)) ++ k = 34%N :: t.
Proof.
  destruct m as [|q m].
  - eexists. cbn [map join_comma]. unfold member_text, quote. reflexivity.
  - eexists. cbn [map]. rewrite join_comma_cons2. unfold member_text at 1, quote.
    reflexivity.
Qed.

Lemma parse_value_obj (m : list (jsstr * json)) (f : nat) (k : jsstr) :
  m <> [] -> Forall str_member m -> (length m + 2 <= f)%nat ->
  parse_value f (stringify (JObj m) ++ k) = Some (JObj m, k).
Proof.
  intros Hne Hall Hf. destruct f as [|f]; [lia|].
  rewrite stringify_JObj. rewrite <- app_comm_cons, <- app_assoc.
  cbn [parse_value skip_ws orb N.eqb Pos.eqb].
  destruct m as [|p m']; [done|].
  destruct (join_members_head p m' ([125%N] ++ k)) as [t Ht].
  rewrite Ht. cbn [skip_ws orb N.eqb Pos.eqb].
  rewrite <- Ht. cbn [app].
  rewrite parse_members_join by (done || simpl in *; lia). reflexivity.
Qed.

End JsonValues.

(** ** The stored student array *)

Section StoredStudents.

Lemma wf_lit (s : string) : wf_jsstr (lit s).
Proof.
  unfold wf_jsstr, lit. apply Forall_forall. intros u Hu.
  apply list_elem_of_In, in_map_iff in Hu as [c [<- _]].
  pose proof (N_ascii_bounded c). lia.
Qed.

Lemma student_members (s : Student) :
  wf_student s ->
  exists m, student_to_json s = JObj m /\ m <> [] /\ Forall str_member m /\ length m = 6%nat.
Proof.
  intros (H1 & H2 & H3 & H4 & H5 & H6). eexists. split; [reflexivity|].
  split; [done|]. split; [|reflexivity].
  repeat constructor; (apply wf_lit || (eexists; split; [reflexivity | assumption])).
Qed.

Lemma parse_value_student (s : Student) (f : nat) (k : jsstr) :
  wf_student s -> (8 <= f)%nat ->
  parse_value f (stringify (student_to_json s) ++ k) = Some (student_to_json s, k).
Proof.
  intros Hs Hf. destruct (student_members s Hs) as (m & Hm & Hne & Hall & Hlen).
  rewrite Hm. apply parse_value_obj; [exact Hne | exact Hall | lia].
Qed.

Lemma stringify_student_length (s : Student) :
  (9 <= length (stringify (student_to_json s)))%nat.
Proof.
  unfold student_to_json. rewrite stringify_JObj. cbn [length].
  rewrite length_app. cbn [map join_comma]. unfold member_text. cbn [fst snd stringify].
  unfold quote. repeat (rewrite ?length_app; cbn [length]). lia.
Qed.

Lemma join_comma_length (l : list json) (n : nat) :
  Forall (fun v => n <= length (stringify v))%nat l ->
  (length l * n <= length (join_comma (map stringify l)))%nat.
Proof.
  induction l as [|x l IH]; intros Hall; [simpl; lia|].
  inversion Hall as [|? ? Hx Hl]; subst.
  destruct l as [|y l].
  - simpl. lia.
  - change (map stringify (x :: y :: l)) with (stringify x :: map stringify (y :: l)).
    change (map stringify (y :: l)) with (stringify y :: map stringify l).
    rewrite join_comma_cons2.
    change (stringify y :: map stringify l) with (map stringify (y :: l)).
    rewrite length_app. cbn [length]. specialize (IH Hl). cbn [length] in IH. lia.
Qed.

Lemma stringify_student_head (s : Student) (k : jsstr) :
  exists t, stringify (student_to_json s) ++ k = 123%N :: t.
Proof. unfold student_to_json. rewrite stringify_JObj. eexists. reflexivity. Qed.

(** [JSON.parse(JSON.stringify(data))] gives back the array of objects. *)
Lemma parse_stringify_students (l : list Student) :
  Forall wf_student l ->
  parse (stringify (JArr (map student_to_json l))) = Some (JArr (map student_to_json l)).
Proof.
  intros Hwf. destruct l as [|s0 l0]; [reflexivity|].
  unfold parse. rewrite stringify_JArr.
  set (L := map student_to_json (s0 :: l0)).
  assert (HL : Forall (fun v => exists s, v = student_to_json s /\ wf_student s) L).
  { subst L. apply Forall_forall. intros v Hv. apply list_elem_of_In, in_map_iff in Hv as [s [<- Hs]].
    exists s. split; [reflexivity|]. rewrite Forall_forall in Hwf.
    apply Hwf, list_elem_of_In, Hs. }
  assert (HJ : (length L * 9 <= length (join_comma (map stringify L)))%nat).
  { apply join_comma_length. eapply Forall_impl; [exact HL|].
    intros v [s [-> _]]. apply stringify_student_length. }
  assert (HLn : length L = S (length l0)) by (subst L; simpl; rewrite length_map; reflexivity).
  assert (Ehead' : exists t, join_comma (map stringify L) ++ [93%N] = 123%N :: t).
  { subst L. destruct l0 as [|s1 l1].
    - cbn [map join_comma]. apply stringify_student_head.
    - cbn [map]. rewrite join_comma_cons2, <- app_assoc. apply stringify_student_head. }
  destruct Ehead' as [t Ehead].
  cbn [length]. rewrite length_app. cbn [length].
  cbn [parse_value skip_ws orb N.eqb Pos.eqb].
  rewrite Ehead. cbn [skip_ws orb N.eqb Pos.eqb]. rewrite <- Ehead.
  rewrite (parse_elems_join (fun v => exists s, v = student_to_json s /\ wf_student s) 8).
  - reflexivity.
  - intros v f k [s [-> Hs]] Hf. apply parse_value_student; assumption.
  - subst L. discriminate.
  - exact HL.
  - lia.
Qed.

Lemma student_of_to (s : Student) : student_of_json (student_to_json s) = Some s.
Proof. destruct s. reflexivity. Qed.

Lemma students_of_to (l : list Student) :
  students_of_json (JArr (map student_to_json l)) = Some l.
Proof.
  unfold students_of_json. induction l as [|s l IH]; [reflexivity|].
  cbn [map mapM]. rewrite student_of_to. simpl in IH |- *. rewrite IH. reflexivity.
Qed.

(** What [loadStudents] hydrates after [saveToStorage(data)]. *)
Lemma load_after_save (data : list Student) (st : HomeState) :
  Forall wf_student data ->
  students (loadStudents (mkHome (students st) (name st) (f_email st) (f_age st)
                                 (f_grade st) (editId st)
                                 (saveToStorage data (storage st)))) = data.
Proof.
  intros Hwf. unfold loadStudents, saveToStorage. cbn [storage].
  rewrite lookup_insert_eq. rewrite stringify_JArr. cbn [truthy].
  rewrite <- stringify_JArr, parse_stringify_students by exact Hwf.
  rewrite students_of_to. reflexivity.
Qed.

Lemma restart_after_save (data : list Student) (kv : gmap string jsstr) :
  Forall wf_student data -> students (restart (saveToStorage data kv)) = data.
Proof. intros Hwf. apply (load_after_save data (mount_state kv) Hwf). Qed.

End StoredStudents.

(** ** Login *)

Section LoginProofs.
Import Login.

(** A rejected axios call (network failure or a status outside 2xx) ends in
    the generic failure alert, and the screen stays on Login. *)
Lemma handleLogin_rejected (email password : jsstr) (r : HttpResult) :
  email <> [] -> password <> [] -> axios_post r = None ->
  handleLogin email password r = [LPost email password; LAlert "Gagal" "Email atau password salah"].
Proof.
  intros He Hp Hr. unfold handleLogin.
  destruct email as [|e0 e]; [done|]. destruct password as [|p0 p]; [done|].
  cbn [truthy negb orb]. rewrite Hr. reflexivity.
Qed.

(** C1 (code_bug): a 2xx answer whose body has no [token] makes
    [handleLogin] do nothing after the request: no failure alert is shown
    (nor a success alert), although the spec counts a missing token as a
    failure that surfaces the generic message. *)
Lemma handleLogin_missing_token_no_message :
  handleLogin (lit "eve.holt@reqres.in") (lit "cityslicka") (Response 200 None)
  = [LPost (lit "eve.holt@reqres.in") (lit "cityslicka")] /\
  ~ generic_failure_shown
      (handleLogin (lit "eve.holt@reqres.in") (lit "cityslicka") (Response 200 None)).
Proof.
  split; [reflexivity|]. unfold generic_failure_shown.
  cbn. intros [H | []]. discriminate.
Qed.

End LoginProofs.

(** ** saveStudent *)

Section SaveProofs.

Lemma validation_fails (st : HomeState) :
  ~ fields_valid st ->
  negb (truthy (name st)) || negb (truthy (f_email st))
  || negb (truthy (f_age st)) || negb (truthy (f_grade st)) = true.
Proof.
  unfold fields_valid. destruct st as [l n e a g ed kv]; cbn [name f_email f_age f_grade].
  destruct n, e, a, g; cbn; try reflexivity. intros H. exfalso. apply H. done.
Qed.

Lemma validation_passes (st : HomeState) :
  fields_valid st ->
  negb (truthy (name st)) || negb (truthy (f_email st))
  || negb (truthy (f_age st)) || negb (truthy (f_grade st)) = false.
Proof.
  unfold fields_valid. destruct st as [l n e a g ed kv]; cbn [name f_email f_age f_grade].
  intros (Hn & He & Ha & Hg). destruct n, e, a, g; done.
Qed.

(** C2: when one of the four form fields is empty, [saveStudent] only shows
    the validation alert: the returned state is the state it was given, so
    the records, the form fields and [editId] are unchanged, and so is the
    record count. *)
Theorem saveStudent_invalid_unchanged (now : N) (st : HomeState) :
  name st = [] \/ f_email st = [] \/ f_age st = [] \/ f_grade st = [] ->
  saveStudent now st = (st, [Alert "Error" "Semua kolom harus diisi!"]) /\
  length (students (fst (saveStudent now st))) = length (students st).
Proof.
  intros Hempty.
  assert (Hv : ~ fields_valid st).
  { unfold fields_valid. intros (H1 & H2 & H3 & H4). intuition. }
  unfold saveStudent. rewrite (validation_fails st Hv). split; reflexivity.
Qed.

Lemma saveStudent_invalid_unchanged_witness :
  (f_grade (setFields (lit "Ann") (lit "a@x.com") (lit "10") [] (mount_state ∅)) = [])
  /\ saveStudent 5 (setFields (lit "Ann") (lit "a@x.com") (lit "10") [] (mount_state ∅))
     = (setFields (lit "Ann") (lit "a@x.com") (lit "10") [] (mount_state ∅),
        [Alert "Error" "Semua kolom harus diisi!"]).
Proof.
  split; [reflexivity|].
  apply (saveStudent_invalid_unchanged 5
           (setFields (lit "Ann") (lit "a@x.com") (lit "10") [] (mount_state ∅))).
  right; right; right. reflexivity.
Defined.

End SaveProofs.

(** ** The two branches of saveStudent *)

Section SaveBranches.

Lemma lookup_map_list {A B} (f : A -> B) (l : list A) (i : nat) :
  map f l !! i = f <$> l !! i.
Proof.
  revert i. induction l as [|x l IH]; intros [|i]; cbn; [done|done|done|].
  apply IH.
Qed.

Lemma saveStudent_add (now : N) (st : HomeState) :
  fields_valid st -> editId st = None ->
  saveStudent now st =
  (let l := students st ++ [mkStudent (now_toString now) (name st) [] (f_email st)
                                      (f_age st) (f_grade st)] in
   (mkHome l [] [] [] [] None (saveToStorage l (storage st)),
    [Alert "Sukses" "Siswa berhasil ditambahkan!"])).
Proof.
  intros Hv He. unfold saveStudent. rewrite (validation_passes st Hv), He. reflexivity.
Qed.

(** The edit branch, taken when [editId] holds a non-empty string. *)
Lemma saveStudent_edit (now : N) (st : HomeState) (e : jsstr) :
  fields_valid st -> editId st = Some e -> e <> [] ->
  saveStudent now st =
  (let l := map (fun s => if decide (id s = e)
                          then mkStudent e (name st) [] (f_email st) (f_age st) (f_grade st)
                          else s) (students st) in
   (mkHome l [] [] [] [] None (saveToStorage l (storage st)),
    [Alert "Sukses" "Data siswa berhasil diperbarui!"])).
Proof.
  intros Hv He Hne. unfold saveStudent. rewrite (validation_passes st Hv), He.
  destruct e as [|u e]; [done|]. reflexivity.
Qed.

Lemma map_edit_unmatched (l : list Student) (e : jsstr) (new : Student) :
  Forall (fun s => id s <> e) l ->
  map (fun s => if decide (id s = e) then new else s) l = l.
Proof.
  induction 1 as [|s l Hs Hl IH]; [reflexivity|].
  cbn [map]. rewrite IH. destruct (decide (id s = e)); [contradiction|reflexivity].
Qed.

(** With the ids of the records pairwise distinct, the edit branch changes
    the record at position [k] (the one carrying [editId]) and only it. *)
Lemma map_edit_at (l : list Student) (e : jsstr) (new : Student) (k : nat) (r : Student) :
  NoDup (map id l) -> l !! k = Some r -> id r = e ->
  map (fun s => if decide (id s = e) then new else s) l !! k = Some new /\
  (forall j, j <> k ->
   map (fun s => if decide (id s = e) then new else s) l !! j = l !! j).
Proof.
  intros Hnd Hk Hr. split.
  - rewrite lookup_map_list, Hk. cbn. destruct (decide (id r = e)); [done|contradiction].
  - intros j Hj. rewrite lookup_map_list.
    destruct (l !! j) as [r'|] eqn:Ej; [|reflexivity]. cbn.
    destruct (decide (id r' = e)) as [Hid|]; [|reflexivity].
    exfalso. apply Hj.
    apply (NoDup_lookup (map id l) j k e Hnd).
    + rewrite lookup_map_list, Ej. cbn. by rewrite Hid.
    + rewrite lookup_map_list, Hk. cbn. by rewrite Hr.
Qed.

End SaveBranches.

(** ** Claims on saveStudent *)

Section SaveClaims.

(** C3: with every field filled in and [editId] unset, [saveStudent] appends
    one record at the end (the earlier records stay in place), the new
    record carries the form input (and the fresh id [Date.now().toString()],
    an empty [last_name]), and the four form fields are cleared. *)
Theorem saveStudent_add_appends (now : N) (st : HomeState) :
  fields_valid st -> editId st = None ->
  let st' := fst (saveStudent now st) in
  students st' = students st ++ [mkStudent (now_toString now) (name st) []
                                           (f_email st) (f_age st) (f_grade st)] /\
  length (students st') = S (length (students st)) /\
  (forall i, i < length (students st) -> students st' !! i = students st !! i) /\
  (exists r, last (students st') = Some r /\ first_name r = name st /\
             email r = f_email st /\ age r = f_age st /\ grade r = f_grade st) /\
  name st' = [] /\ f_email st' = [] /\ f_age st' = [] /\ f_grade st' = [] /\
  editId st' = None.
Proof.
  intros Hv He st'. subst st'. rewrite (saveStudent_add now st Hv He). cbn.
  split; [reflexivity|]. split; [rewrite length_app; cbn; lia|].
  split; [intros i Hi; apply lookup_app_l; exact Hi|].
  split; [|done]. eexists. rewrite last_snoc. done.
Qed.

Lemma saveStudent_add_appends_witness :
  fields_valid (setFields (lit "Ann") (lit "a@x.com") (lit "10") (lit "5") (mount_state ∅))
  /\ students (fst (saveStudent 1700000000000
                 (setFields (lit "Ann") (lit "a@x.com") (lit "10") (lit "5") (mount_state ∅))))
     = [mkStudent (lit "1700000000000") (lit "Ann") [] (lit "a@x.com") (lit "10") (lit "5")].
Proof.
  assert (Hv : fields_valid (setFields (lit "Ann") (lit "a@x.com") (lit "10") (lit "5")
                                       (mount_state ∅)))
    by (repeat split; discriminate).
  split; [exact Hv|].
  destruct (saveStudent_add_appends 1700000000000 _ Hv eq_refl) as [-> _].
  vm_compute. reflexivity.
Defined.

(** C4 (counterexample): two records created in the same millisecond share
    an id; editing one of them and saving overwrites the other as well, so
    the record at another position changes. *)
Lemma edit_overwrites_record_sharing_id :
  let r0 := mkStudent (lit "1700000000000") (lit "Ann") [] (lit "a@x.com") (lit "10") (lit "5") in
  let st := run (mount_state ∅)
        [OpType (lit "Ann") (lit "a@x.com") (lit "10") (lit "5"); OpSave 1700000000000;
         OpType (lit "Bo") (lit "b@x.com") (lit "11") (lit "6"); OpSave 1700000000000;
         OpEdit r0; OpType (lit "Cy") (lit "c@x.com") (lit "12") (lit "7")] in
  students st !! 0 = Some r0 /\ editId st = Some (id r0) /\ fields_valid st /\
  students (fst (saveStudent 1700000000001 st)) !! 1 <> students st !! 1.
Proof.
  intros r0 st. split; [vm_compute; reflexivity|].
  split; [vm_compute; reflexivity|].
  split; [unfold fields_valid; vm_compute; split_and!; intros H; discriminate H|].
  vm_compute. intros H. discriminate H.
Qed.

(** C4 (amended): with every field filled in and [editId] set to a
    non-empty id [e], [saveStudent] keeps the record count and the order,
    replaces every record whose id is [e], in its position, by a record with
    id [e] and the form values (and an empty [last_name]), leaves every
    record with another id as it was, and clears [editId].  When the ids are
    pairwise distinct, the one record carrying [e] is replaced and every
    other position keeps its record. *)
Theorem saveStudent_edit_replaces_matching (now : N) (st : HomeState) (e : jsstr) :
  fields_valid st -> editId st = Some e -> e <> [] ->
  let new := mkStudent e (name st) [] (f_email st) (f_age st) (f_grade st) in
  let st' := fst (saveStudent now st) in
  length (students st') = length (students st) /\
  (forall j s, students st !! j = Some s ->
     students st' !! j = Some (if decide (id s = e) then new else s)) /\
  editId st' = None /\
  (NoDup (map id (students st)) -> forall k r, students st !! k = Some r -> id r = e ->
     students st' !! k = Some new /\
     forall j, j <> k -> students st' !! j = students st !! j).
Proof.
  intros Hv He Hne new st'. subst st'.
  rewrite (saveStudent_edit now st e Hv He Hne). cbn.
  split; [apply length_map|].
  split; [intros j s Hj; rewrite lookup_map_list, Hj; reflexivity|].
  split; [reflexivity|].
  intros Hnd k r Hk Hr. exact (map_edit_at (students st) e new k r Hnd Hk Hr).
Qed.

Lemma saveStudent_edit_replaces_matching_witness :
  let r1 := mkStudent (lit "1") (lit "Ann") [] (lit "a@x.com") (lit "10") (lit "5") in
  let r2 := mkStudent (lit "1") (lit "Bo") [] (lit "b@x.com") (lit "11") (lit "6") in
  let st := mkHome [r1; r2] (lit "Cy") (lit "c@x.com") (lit "12") (lit "7") (Some (lit "1")) ∅ in
  fields_valid st /\
  students (fst (saveStudent 2 st)) =
  [mkStudent (lit "1") (lit "Cy") [] (lit "c@x.com") (lit "12") (lit "7");
   mkStudent (lit "1") (lit "Cy") [] (lit "c@x.com") (lit "12") (lit "7")].
Proof.
  intros r1 r2 st.
  assert (Hv : fields_valid st) by (repeat split; discriminate).
  split; [exact Hv|].
  destruct (saveStudent_edit_replaces_matching 2 st (lit "1") Hv eq_refl ltac:(discriminate))
    as (Hlen & Hat & _ & _).
  pose proof (Hat 0 r1 eq_refl) as H0. pose proof (Hat 1 r2 eq_refl) as H1.
  destruct (students (fst (saveStudent 2 st))) as [|x [|y [|z l]]];
    cbn in Hlen; try discriminate.
  cbn in H0, H1. injection H0 as ->. injection H1 as ->. reflexivity.
Defined.

End SaveClaims.

Section SaveClaims2.

(** C7: with every field filled in and a (non-empty) [editId] that matches
    no record, [saveStudent] leaves the record sequence as it was and raises
    no error: the only alert is the success alert of the edit branch. *)
Theorem saveStudent_unmatched_edit_noop (now : N) (st : HomeState) (e : jsstr) :
  fields_valid st -> editId st = Some e -> e <> [] ->
  Forall (fun s => id s <> e) (students st) ->
  students (fst (saveStudent now st)) = students st /\
  snd (saveStudent now st) = [Alert "Sukses" "Data siswa berhasil diperbarui!"].
Proof.
  intros Hv He Hne Hnone. rewrite (saveStudent_edit now st e Hv He Hne). cbn.
  rewrite map_edit_unmatched by exact Hnone. split; reflexivity.
Qed.

Lemma saveStudent_unmatched_edit_noop_witness :
  let r := mkStudent (lit "1") (lit "Ann") [] (lit "a@x.com") (lit "10") (lit "5") in
  let st := mkHome [r] (lit "Bob") (lit "b@x.com") (lit "11") (lit "6") (Some (lit "2")) ∅ in
  fields_valid st /\ students (fst (saveStudent 3 st)) = [r].
Proof.
  intros r st.
  assert (Hv : fields_valid st) by (repeat split; discriminate).
  split; [exact Hv|].
  apply (saveStudent_unmatched_edit_noop 3 st (lit "2") Hv eq_refl ltac:(discriminate)).
  constructor; [discriminate | constructor].
Defined.

(** C10: in the same situation [saveStudent] still completes the edit: the
    new state has the unchanged records, empty form fields, [editId]
    cleared, and storage rewritten with the unchanged records; the user sees
    the success alert. *)
Theorem saveStudent_unmatched_edit_full_transition (now : N) (st : HomeState) (e : jsstr) :
  fields_valid st -> editId st = Some e -> e <> [] ->
  Forall (fun s => id s <> e) (students st) ->
  saveStudent now st =
  (mkHome (students st) [] [] [] [] None (saveToStorage (students st) (storage st)),
   [Alert "Sukses" "Data siswa berhasil diperbarui!"]).
Proof.
  intros Hv He Hne Hnone. rewrite (saveStudent_edit now st e Hv He Hne). cbn.
  rewrite map_edit_unmatched by exact Hnone. reflexivity.
Qed.

Lemma saveStudent_unmatched_edit_full_transition_witness :
  let st := mkHome [] (lit "Bob") (lit "b@x.com") (lit "11") (lit "6") (Some (lit "2")) ∅ in
  fields_valid st /\
  saveStudent 3 st = (mkHome [] [] [] [] [] None (saveToStorage [] ∅),
                      [Alert "Sukses" "Data siswa berhasil diperbarui!"]).
Proof.
  intros st.
  assert (Hv : fields_valid st) by (repeat split; discriminate).
  split; [exact Hv|].
  apply (saveStudent_unmatched_edit_full_transition 3 st (lit "2") Hv eq_refl
           ltac:(discriminate)).
  constructor.
Defined.

(** C9: every record [saveStudent] writes has an empty [last_name]: each
    record after the call was already there or has [last_name = ""]; and in
    the edit branch the record at the edited position gets [last_name = ""]
    whatever it held before. *)
Theorem saveStudent_written_last_name_empty (now : N) (st : HomeState) :
  (forall r, In r (students (fst (saveStudent now st))) ->
             In r (students st) \/ last_name r = []) /\
  (forall e k r, fields_valid st -> editId st = Some e -> e <> [] ->
     students st !! k = Some r -> id r = e ->
     exists r', students (fst (saveStudent now st)) !! k = Some r' /\ last_name r' = []).
Proof.
  split.
  - intros r Hr. unfold saveStudent in Hr.
    destruct (negb (truthy (name st)) || negb (truthy (f_email st))
              || negb (truthy (f_age st)) || negb (truthy (f_grade st))).
    { left. exact Hr. }
    destruct (editId st) as [e|]; [destruct (truthy e)|]; cbn in Hr.
    + apply in_map_iff in Hr as [x [Hx Hin]].
      destruct (decide (id x = e)); [right; subst r; reflexivity|left; subst r; exact Hin].
    + apply in_app_or in Hr as [Hin|[<-|[]]]; [left; exact Hin|right; reflexivity].
    + apply in_app_or in Hr as [Hin|[<-|[]]]; [left; exact Hin|right; reflexivity].
  - intros e k r Hv He Hne Hk Hr. rewrite (saveStudent_edit now st e Hv He Hne). cbn.
    rewrite lookup_map_list, Hk. cbn. eexists. split; [reflexivity|].
    destruct (decide (id r = e)); [reflexivity|contradiction].
Qed.

Lemma saveStudent_written_last_name_empty_witness :
  let r := mkStudent (lit "1") (lit "Ann") (lit "Lee") (lit "a@x.com") (lit "10") (lit "5") in
  let st := mkHome [r] (lit "Ann") (lit "a@x.com") (lit "10") (lit "6") (Some (lit "1")) ∅ in
  fields_valid st /\
  exists r', students (fst (saveStudent 2 st)) !! 0 = Some r' /\ last_name r' = [].
Proof.
  intros r st.
  assert (Hv : fields_valid st) by (repeat split; discriminate).
  split; [exact Hv|].
  apply (proj2 (saveStudent_written_last_name_empty 2 st) (lit "1") 0 r Hv eq_refl
           ltac:(discriminate) eq_refl eq_refl).
Defined.

End SaveClaims2.

(** ** Persisting and loading *)

Section StorageClaims.



(** C5: for records whose strings are well-formed JS strings, writing them
    with [saveToStorage] and reading them back with [loadStudents] (on a
    freshly mounted screen, or on any screen state whose storage was just
    written) yields exactly the records. *)
Theorem persist_load_roundtrip (records : list Student) (kv : gmap string jsstr) :
  Forall wf_student records ->
  students (restart (saveToStorage records kv)) = records /\
  (forall st, students (loadStudents
                 (mkHome (students st) (name st) (f_email st) (f_age st) (f_grade st)
                         (editId st) (saveToStorage records kv))) = records).
Proof.
  intros Hwf. split.
  - apply restart_after_save, Hwf.
  - intros st. apply (load_after_save records
                        (mkHome (students st) (name st) (f_email st) (f_age st)
                                (f_grade st) (editId st) kv) Hwf).
Qed.

Lemma persist_load_roundtrip_witness :
  let recs := [mkStudent (lit "1700000000000") [65; 34; 92; 10; 55357; 56832; 56320]%N []
                         (lit "a@x.com") (lit "10") (lit "5");
               mkStudent (lit "1700000000001") (lit "Bo") (lit "X") (lit "b@x.com")
                         (lit "11") (lit "6")] in
  Forall wf_student recs /\ students (restart (saveToStorage recs ∅)) = recs.
Proof.
  intros recs.
  assert (Hwf : Forall wf_student recs).
  { repeat constructor; unfold wf_jsstr; repeat constructor; try apply wf_lit; lia. }
  split; [exact Hwf|].
  apply (persist_load_roundtrip recs ∅ Hwf).
Defined.



End StorageClaims.

(** ** Record ids *)

Section Ids.

Lemma lit_inj (a b : string) : lit a = lit b -> a = b.
Proof.
  unfold lit. intros H.
  assert (Hl : String.list_ascii_of_string a = String.list_ascii_of_string b).
  { revert H. generalize (String.list_ascii_of_string a), (String.list_ascii_of_string b).
    induction l as [|x l IH]; intros [|y l'] H; try discriminate; [reflexivity|].
    cbn in H. injection H as Hxy Hl.
    rewrite <- (ascii_N_embedding x), <- (ascii_N_embedding y), Hxy.
    f_equal. apply IH, Hl. }
  rewrite <- (String.string_of_list_ascii_of_string a),
          <- (String.string_of_list_ascii_of_string b), Hl.
  reflexivity.
Qed.

Lemma now_toString_inj (a b : N) : now_toString a = now_toString b -> a = b.
Proof. unfold now_toString. intros H. apply lit_inj in H. exact (inj pretty a b H). Qed.

Lemma pretty_N_go_nonempty (x : N) (s : string) : s <> ""%string -> pretty_N_go x s <> ""%string.
Proof.
  revert s. induction (N.lt_wf_0 x) as [x _ IH]; intros s Hs.
  destruct (decide (x = 0%N)) as [->|Hx]; [by rewrite pretty_N_go_0|].
  rewrite pretty_N_go_step by lia. apply IH; [apply N.div_lt; lia|discriminate].
Qed.

(** Every id [saveStudent] generates is a non-empty string. *)
Lemma now_toString_nonempty (t : N) : now_toString t <> [].
Proof.
  unfold now_toString, pretty, pretty_N. destruct (decide (t = 0%N)); [discriminate|].
  rewrite pretty_N_go_step by lia.
  pose proof (pretty_N_go_nonempty (t `div` 10) (String (pretty_N_char (t `mod` 10)) "")
                ltac:(discriminate)) as H.
  destruct (pretty_N_go _ _) as [|c s]; [contradiction|discriminate].
Qed.

Lemma map_id_edit (l : list Student) (e : jsstr) (n em a g : jsstr) :
  map id (map (fun s => if decide (id s = e) then mkStudent e n [] em a g else s) l) = map id l.
Proof.
  induction l as [|s l IH]; [reflexivity|]. cbn [map]. rewrite IH.
  destruct (decide (id s = e)) as [<-|]; reflexivity.
Qed.

Lemma map_id_filter (i : jsstr) (l : list Student) :
  map id (filter (fun s => id s <> i) l) = filter (fun x => x <> i) (map id l).
Proof.
  induction l as [|s l IH]; [reflexivity|]. cbn [map]. rewrite !filter_cons.
  destruct (decide (id s <> i)); cbn [map]; rewrite IH; reflexivity.
Qed.

(** How one [saveStudent] changes the id list: unchanged (validation
    failure or edit), or the fresh id appended (add). *)
Lemma saveStudent_ids (t : N) (st : HomeState) :
  map id (students (fst (saveStudent t st))) = map id (students st) \/
  map id (students (fst (saveStudent t st))) = map id (students st) ++ [now_toString t].
Proof.
  unfold saveStudent.
  destruct (negb (truthy (name st)) || negb (truthy (f_email st))
            || negb (truthy (f_age st)) || negb (truthy (f_grade st))); [left; reflexivity|].
  destruct (editId st) as [e|]; [destruct (truthy e)|]; cbn [fst students].
  - left. apply map_id_edit.
  - right. rewrite map_app. reflexivity.
  - right. rewrite map_app. reflexivity.
Qed.

Lemma deleteStudent_ids (i : jsstr) (c : bool) (st : HomeState) :
  map id (students (fst (deleteStudent i c st))) =
  if c then filter (fun x => x <> i) (map id (students st)) else map id (students st).
Proof. destruct c; cbn; [apply map_id_filter|reflexivity]. Qed.

Lemma elem_of_map_id (x : jsstr) (l : list Student) :
  x ∈ map id l -> exists s, s ∈ l /\ id s = x.
Proof.
  intros Hx. apply list_elem_of_In, in_map_iff in Hx as [s [Hs Hin]].
  exists s. split; [apply list_elem_of_In, Hin|exact Hs].
Qed.

Lemma ids_inv_save (P : N -> Prop) (b t : N) (st : HomeState) :
  ids_inv P b (students st) -> P t -> (b <= t)%N ->
  ids_inv P (t + 1) (students (fst (saveStudent t st))).
Proof.
  intros [Hnd Hall] Pt Hbt.
  assert (Hold : forall s, s ∈ students st ->
                 exists t', P t' /\ (t' < t + 1)%N /\ id s = now_toString t').
  { intros s Hs. destruct (Hall s Hs) as (t' & ? & ? & ?). exists t'. split_and!; auto; lia. }
  unfold saveStudent.
  destruct (negb (truthy (name st)) || negb (truthy (f_email st))
            || negb (truthy (f_age st)) || negb (truthy (f_grade st))).
  { split; [exact Hnd|exact Hold]. }
  assert (Hadd : ids_inv P (t + 1)
                   (students st ++ [mkStudent (now_toString t) (name st) [] (f_email st)
                                              (f_age st) (f_grade st)])).
  { split.
    - rewrite map_app. apply NoDup_app. split; [exact Hnd|]. split; [|cbn; constructor; [set_solver|constructor]].
      intros x Hx Hin. apply list_elem_of_singleton in Hin. subst x.
      apply elem_of_map_id in Hx as [s [Hs Hid]].
      destruct (Hall s Hs) as (t' & _ & Hlt & Ht'). rewrite Ht' in Hid.
      apply now_toString_inj in Hid. lia.
    - intros s Hs. apply elem_of_app in Hs as [Hs|Hs]; [apply Hold, Hs|].
      apply list_elem_of_singleton in Hs. subst s. exists t. split_and!; [exact Pt|lia|reflexivity]. }
  destruct (editId st) as [e|]; [destruct (truthy e)|]; cbn [fst students]; try exact Hadd.
  split.
  - rewrite map_id_edit. exact Hnd.
  - intros s Hs. apply list_elem_of_In, in_map_iff in Hs as [x [Hx Hin]].
    apply list_elem_of_In in Hin. destruct (Hold x Hin) as (t' & ? & ? & Hid).
    exists t'. split_and!; auto. rewrite <- Hx.
    destruct (decide (id x = e)) as [He|]; [cbn; rewrite <- He; exact Hid|exact Hid].
Qed.

Lemma ids_inv_step (P : N -> Prop) (b : N) (st : HomeState) (o : Op) (ops : list Op) :
  (forall t, t ∈ save_times (o :: ops) -> P t) ->
  ids_inv P b (students st) -> clock_ok b (o :: ops) ->
  exists b', ids_inv P b' (students (step st o)) /\ clock_ok b' ops.
Proof.
  intros HP Hinv Hclk. destruct o as [n e a g|s|t|i c]; cbn in Hclk |- *.
  - exists b. split; [exact Hinv|exact Hclk].
  - exists b. split; [exact Hinv|exact Hclk].
  - destruct Hclk as [Hbt Hclk]. exists (t + 1)%N. split; [|exact Hclk].
    apply ids_inv_save with b; [exact Hinv| |exact Hbt].
    apply HP. cbn. constructor.
  - exists b. split; [|exact Hclk]. destruct c; [|exact Hinv].
    destruct Hinv as [Hnd Hall]. split.
    + cbn. rewrite map_id_filter. apply NoDup_filter, Hnd.
    + intros s Hs. cbn in Hs. apply list_elem_of_filter in Hs as [_ Hs]. apply Hall, Hs.
Qed.

Lemma save_times_cons_sub (o : Op) (ops : list Op) (t : N) :
  t ∈ save_times ops -> t ∈ save_times (o :: ops).
Proof. intros H. destruct o; cbn; [exact H|exact H|constructor; exact H|exact H]. Qed.

Lemma ids_inv_run (P : N -> Prop) (ops : list Op) :
  forall (b : N) (st : HomeState),
  (forall t, t ∈ save_times ops -> P t) ->
  ids_inv P b (students st) -> clock_ok b ops ->
  exists b', ids_inv P b' (students (run st ops)).
Proof.
  induction ops as [|o ops IH]; intros b st HP Hinv Hclk; [exists b; exact Hinv|].
  destruct (ids_inv_step P b st o ops HP Hinv Hclk) as (b' & Hinv' & Hclk').
  unfold run. cbn [foldl]. apply (IH b'); [|exact Hinv'|exact Hclk'].
  intros t Ht. apply HP, save_times_cons_sub, Ht.
Qed.

End Ids.

Section IdClaims.

(** C8 (counterexample): two saves in the same millisecond give two records
    the same id, so ids are not unique in every reachable state. *)
Lemma ids_not_unique_same_millisecond :
  ~ NoDup (map id (students (run (mount_state ∅)
        [OpType (lit "Ann") (lit "a@x.com") (lit "10") (lit "5"); OpSave 1700000000000;
         OpType (lit "Bo") (lit "b@x.com") (lit "11") (lit "6"); OpSave 1700000000000]))).
Proof.
  assert (E : map id (students (run (mount_state ∅)
        [OpType (lit "Ann") (lit "a@x.com") (lit "10") (lit "5"); OpSave 1700000000000;
         OpType (lit "Bo") (lit "b@x.com") (lit "11") (lit "6"); OpSave 1700000000000]))
              = [lit "1700000000000"; lit "1700000000000"]) by (vm_compute; reflexivity).
  rewrite E. intros H. inversion H as [|? ? Hnin _]. apply Hnin. constructor.
Qed.

(** C8 (amended): starting from the empty screen, if the clock readings at
    successive saves strictly increase, the ids of the records are pairwise
    distinct in every state reached, and each is [Date.now().toString()] of
    the clock reading at some save.  No operation changes an existing id: a
    save leaves the id list as it was (failed validation, edit) or appends
    the fresh id (add), and a delete keeps the other ids in order. *)
Theorem ids_unique_with_increasing_clock :
  (forall ops : list Op, clock_ok 0 ops ->
     NoDup (map id (students (run (mount_state ∅) ops))) /\
     forall s, s ∈ students (run (mount_state ∅) ops) ->
       exists t, t ∈ save_times ops /\ id s = now_toString t) /\
  (forall (t : N) (st : HomeState),
     map id (students (fst (saveStudent t st))) = map id (students st) \/
     map id (students (fst (saveStudent t st))) = map id (students st) ++ [now_toString t]) /\
  (forall (i : jsstr) (c : bool) (st : HomeState),
     map id (students (fst (deleteStudent i c st))) =
     if c then filter (fun x => x <> i) (map id (students st)) else map id (students st)).
Proof.
  split; [|split; [apply saveStudent_ids|apply deleteStudent_ids]].
  intros ops Hclk.
  assert (H0 : ids_inv (fun t => t ∈ save_times ops) 0 (students (mount_state ∅))).
  { split; [constructor|]. intros s Hs. inversion Hs. }
  destruct (ids_inv_run (fun t => t ∈ save_times ops) ops 0 (mount_state ∅)
              (fun t Ht => Ht) H0 Hclk) as [b' [Hnd Hall]].
  split; [exact Hnd|]. intros s Hs. destruct (Hall s Hs) as (t & Ht & _ & Hid).
  exists t. split; assumption.
Qed.

Lemma ids_unique_with_increasing_clock_witness :
  clock_ok 0 [OpType (lit "Ann") (lit "a@x.com") (lit "10") (lit "5"); OpSave 1700000000000;
              OpType (lit "Bo") (lit "b@x.com") (lit "11") (lit "6"); OpSave 1700000000001] /\
  NoDup (map id (students (run (mount_state ∅)
        [OpType (lit "Ann") (lit "a@x.com") (lit "10") (lit "5"); OpSave 1700000000000;
         OpType (lit "Bo") (lit "b@x.com") (lit "11") (lit "6"); OpSave 1700000000001]))).
Proof.
  assert (Hclk : clock_ok 0 [OpType (lit "Ann") (lit "a@x.com") (lit "10") (lit "5");
                             OpSave 1700000000000;
                             OpType (lit "Bo") (lit "b@x.com") (lit "11") (lit "6");
                             OpSave 1700000000001]) by (cbn; lia).
  split; [exact Hclk|].
  apply (proj1 ids_unique_with_increasing_clock _ Hclk).
Defined.

End IdClaims.

(** * Further properties of the screens *)

(** ** handleLogin *)

Section LoginExtra.
Import Login.

(** An empty email or password stops [handleLogin] at the validation alert:
    no request is sent and the screen stays on Login, whatever the server
    would have answered. *)
Theorem handleLogin_empty_field_no_request (email password : jsstr) (r : HttpResult) :
  email = [] \/ password = [] ->
  handleLogin email password r = [LAlert "Error" "Email dan password wajib diisi!"] /\
  navigates (handleLogin email password r) = false.
Proof.
  intros H. unfold handleLogin.
  destruct H as [->| ->]; [|destruct email]; split; reflexivity.
Qed.

Lemma handleLogin_empty_field_no_request_witness :
  handleLogin (lit "eve.holt@reqres.in") [] (Response 200 (Some (lit "QpwL5tke4Pnpja7X4")))
  = [LAlert "Error" "Email dan password wajib diisi!"].
Proof.
  apply (handleLogin_empty_field_no_request (lit "eve.holt@reqres.in") []
           (Response 200 (Some (lit "QpwL5tke4Pnpja7X4")))).
  right. reflexivity.
Defined.

(** A rejected request (network failure or non-2xx status) with both fields
    filled in sends the request, then shows only the generic failure alert
    and stays on Login. *)
Theorem handleLogin_rejected_generic_failure (email password : jsstr) (r : HttpResult) :
  email <> [] -> password <> [] -> axios_post r = None ->
  handleLogin email password r = [LPost email password; LAlert "Gagal" "Email atau password salah"] /\
  navigates (handleLogin email password r) = false.
Proof.
  intros He Hp Hr. rewrite (handleLogin_rejected email password r He Hp Hr).
  split; reflexivity.
Qed.

Lemma handleLogin_rejected_generic_failure_witness :
  handleLogin (lit "eve.holt@reqres.in") (lit "x") (Response 400 None)
  = [LPost (lit "eve.holt@reqres.in") (lit "x"); LAlert "Gagal" "Email atau password salah"].
Proof.
  apply (handleLogin_rejected_generic_failure (lit "eve.holt@reqres.in") (lit "x")
           (Response 400 None)); [discriminate|discriminate|reflexivity].
Defined.

(** [handleLogin] leaves for the records screen exactly when both fields are
    filled in and the server answers with a 2xx status and a non-empty token;
    it then shows the success alert before navigating. *)
Theorem handleLogin_navigates_iff (email password : jsstr) (r : HttpResult) :
  navigates (handleLogin email password r) = true <->
  email <> [] /\ password <> [] /\
  exists status t, r = Response status (Some t) /\ (200 <= status < 300)%Z /\ t <> [] /\
  handleLogin email password r =
    [LPost email password; LAlert "Sukses" "Login berhasil!"; LReplace "Home"].
Proof.
  unfold handleLogin. split.
  - destruct email as [|e0 e]; [discriminate|]. destruct password as [|p0 p]; [discriminate|].
    cbn [truthy negb orb]. destruct r as [|status [t|]]; cbn [axios_post]; [discriminate| |].
    + destruct ((200 <=? status)%Z && (status <? 300)%Z) eqn:Es; [|discriminate].
      destruct t as [|u t]; [discriminate|]. intros _.
      apply andb_true_iff in Es as [E1 E2]. apply Z.leb_le in E1. apply Z.ltb_lt in E2.
      split; [discriminate|]. split; [discriminate|].
      exists status, (u :: t). split_and!; [reflexivity|lia|lia|discriminate|].
      reflexivity.
    + destruct ((200 <=? status)%Z && (status <? 300)%Z); discriminate.
  - intros (He & Hp & status & t & -> & _ & _ & Heq). rewrite Heq. reflexivity.
Qed.

End LoginExtra.

(** ** editStudent composed with saveStudent and deleteStudent *)

Section EditExtra.

(** Pressing Edit on a record and then saving without touching the form
    keeps the record count and the order, clears [editId], and rewrites every
    record carrying the edited record's id with that id and the edited
    record's fields, except that [last_name] becomes empty; records with
    another id stay as they were.  A second record that shares the id becomes
    a copy of the edited one. *)
Theorem edit_then_save_clears_last_name (now : N) (st : HomeState) (r : Student) :
  id r <> [] -> first_name r <> [] -> email r <> [] -> age r <> [] -> grade r <> [] ->
  let st' := fst (saveStudent now (editStudent r st)) in
  length (students st') = length (students st) /\
  (forall j s, students st !! j = Some s ->
     students st' !! j =
     Some (if decide (id s = id r)
           then mkStudent (id r) (first_name r) [] (email r) (age r) (grade r) else s)) /\
  editId st' = None.
Proof.
  intros Hid Hf He Ha Hg st'. subst st'.
  assert (Hv : fields_valid (editStudent r st)) by (split_and!; assumption).
  rewrite (saveStudent_edit now (editStudent r st) (id r) Hv eq_refl Hid). cbn.
  split; [apply length_map|].
  split; [intros j s Hj; rewrite lookup_map_list, Hj; reflexivity|reflexivity].
Qed.

Lemma edit_then_save_clears_last_name_witness :
  let r := mkStudent (lit "1") (lit "Ann") (lit "Lee") (lit "a@x.com") (lit "10") (lit "5") in
  let r2 := mkStudent (lit "1") (lit "Bo") [] (lit "b@x.com") (lit "11") (lit "6") in
  let st := mkHome [r; r2] [] [] [] [] None ∅ in
  students (fst (saveStudent 2 (editStudent r st))) !! 1
  = Some (mkStudent (lit "1") (lit "Ann") [] (lit "a@x.com") (lit "10") (lit "5")).
Proof.
  intros r r2 st.
  destruct (edit_then_save_clears_last_name 2 st r ltac:(discriminate) ltac:(discriminate)
              ltac:(discriminate) ltac:(discriminate) ltac:(discriminate)) as (_ & Hat & _).
  exact (Hat 1 r2 eq_refl).
Defined.

(** Pressing Edit on a record, deleting that record, then pressing save does
    not bring the record back: the deletion leaves [editId] set, and the
    save finds no record with that id, so the records stay those left by the
    deletion (whatever the form holds). *)
Theorem edit_delete_save_no_resurrect (now : N) (st : HomeState) (r : Student) :
  id r <> [] ->
  let st2 := fst (deleteStudent (id r) true (editStudent r st)) in
  editId st2 = Some (id r) /\
  students (fst (saveStudent now st2)) = filter (fun s => id s <> id r) (students st).
Proof.
  intros Hid st2. split; [reflexivity|].
  assert (Hnone : Forall (fun s => id s <> id r) (students st2)).
  { apply Forall_forall. intros s Hs. cbn in Hs.
    apply list_elem_of_filter in Hs as [Hs _]. exact Hs. }
  destruct (decide (fields_valid st2)) as [Hv|Hv].
  - rewrite (saveStudent_edit now st2 (id r) Hv eq_refl Hid). cbn.
    rewrite map_edit_unmatched by exact Hnone. reflexivity.
  - unfold saveStudent. rewrite (validation_fails st2 Hv). reflexivity.
Qed.

Lemma edit_delete_save_no_resurrect_witness :
  let r := mkStudent (lit "1") (lit "Ann") [] (lit "a@x.com") (lit "10") (lit "5") in
  let r2 := mkStudent (lit "2") (lit "Bo") [] (lit "b@x.com") (lit "11") (lit "6") in
  students (fst (saveStudent 3 (fst (deleteStudent (lit "1") true
                                      (editStudent r (mkHome [r; r2] [] [] [] [] None ∅))))))
  = [r2].
Proof.
  intros r r2.
  apply (edit_delete_save_no_resurrect 3 (mkHome [r; r2] [] [] [] [] None ∅) r).
  discriminate.
Defined.

(** [if (editId)] treats an empty [editId] as unset: with the fields filled
    in, the save takes the add branch, appends a fresh record, and leaves
    [editId] as the empty string. *)
Theorem saveStudent_empty_editId_adds (now : N) (st : HomeState) :
  fields_valid st -> editId st = Some [] ->
  students (fst (saveStudent now st)) =
    students st ++ [mkStudent (now_toString now) (name st) [] (f_email st) (f_age st) (f_grade st)] /\
  editId (fst (saveStudent now st)) = Some [].
Proof.
  intros Hv He. unfold saveStudent. rewrite (validation_passes st Hv), He.
  split; reflexivity.
Qed.

Lemma saveStudent_empty_editId_adds_witness :
  let st := mkHome [] (lit "Ann") (lit "a@x.com") (lit "10") (lit "5") (Some []) ∅ in
  fields_valid st /\ length (students (fst (saveStudent 7 st))) = 1%nat.
Proof.
  intros st. assert (Hv : fields_valid st) by (repeat split; discriminate).
  split; [exact Hv|].
  rewrite (proj1 (saveStudent_empty_editId_adds 7 st Hv eq_refl)). reflexivity.
Defined.

End EditExtra.

(** ** Invariants of runs of the screen *)

Section RunInvariants.

Lemma saveStudent_records_origin (now : N) (st : HomeState) (r : Student) :
  r ∈ students (fst (saveStudent now st)) ->
  r ∈ students st \/
  (last_name r = [] /\ (id r = now_toString now \/ editId st = Some (id r))).
Proof.
  intros Hr. unfold saveStudent in Hr.
  destruct (negb (truthy (name st)) || negb (truthy (f_email st))
            || negb (truthy (f_age st)) || negb (truthy (f_grade st))).
  { left. exact Hr. }
  destruct (editId st) as [e|] eqn:Ee; [destruct (truthy e)|]; cbn in Hr.
  - apply list_elem_of_In, in_map_iff in Hr as [x [Hx Hin]].
    destruct (decide (id x = e)).
    + right. subst r. cbn. split; [reflexivity|right; reflexivity].
    + left. subst r. apply list_elem_of_In, Hin.
  - apply elem_of_app in Hr as [Hin|Hin]; [left; exact Hin|].
    apply list_elem_of_singleton in Hin. subst r. right. split; [reflexivity|left; reflexivity].
  - apply elem_of_app in Hr as [Hin|Hin]; [left; exact Hin|].
    apply list_elem_of_singleton in Hin. subst r. right. split; [reflexivity|left; reflexivity].
Qed.

Lemma step_records_origin (st : HomeState) (o : Op) (r : Student) :
  r ∈ students (step st o) ->
  r ∈ students st \/
  (last_name r = [] /\ ((exists t, o = OpSave t /\ id r = now_toString t) \/
                         editId st = Some (id r))).
Proof.
  destruct o as [n e a g|s|t|i c]; cbn.
  - intros H. left. exact H.
  - intros H. left. exact H.
  - intros Hr. destruct (saveStudent_records_origin t st r Hr) as [H|[Hl [Ht|He]]].
    + left. exact H.
    + right. split; [exact Hl|left; exists t; split; [reflexivity|exact Ht]].
    + right. split; [exact Hl|right; exact He].
  - destruct c; cbn; intros Hr; left; [|exact Hr].
    apply list_elem_of_filter in Hr as [_ Hr]. exact Hr.
Qed.

(** Starting from the empty screen, every record in the list has an empty
    [last_name], whatever the user does: the form has no last-name field. *)
Theorem run_last_name_empty (ops : list Op) :
  forall s, s ∈ students (run (mount_state ∅) ops) -> last_name s = [].
Proof.
  assert (Hgen : forall st, (forall s, s ∈ students st -> last_name s = []) ->
                 forall s, s ∈ students (run st ops) -> last_name s = []).
  { induction ops as [|o ops IH]; intros st Hst; [exact Hst|].
    apply IH. intros s Hs.
    destruct (step_records_origin st o s Hs) as [H|[Hl _]]; [apply Hst, H|exact Hl]. }
  apply Hgen. intros s Hs. inversion Hs.
Qed.

(** Starting from the empty screen, every record id is a non-empty string,
    so an [editId] taken from a stored record always passes [if (editId)]. *)
Theorem run_ids_nonempty (ops : list Op) :
  forall s, s ∈ students (run (mount_state ∅) ops) -> id s <> [].
Proof.
  assert (Hgen : forall st, (forall s, s ∈ students st -> id s <> []) ->
                 forall s, s ∈ students (run st ops) -> id s <> []).
  { induction ops as [|o ops IH]; intros st Hst; [exact Hst|].
    apply IH. intros s Hs. destruct o as [n e a g|r|t|i c]; cbn in Hs.
    - apply Hst, Hs.
    - apply Hst, Hs.
    - destruct (saveStudent_ids t st) as [E|E].
      + assert (Hin : id s ∈ map id (students st)).
        { rewrite <- E. apply list_elem_of_In, in_map, list_elem_of_In, Hs. }
        apply elem_of_map_id in Hin as [s' [Hs' <-]]. apply Hst, Hs'.
      + assert (Hin : id s ∈ map id (students st) ++ [now_toString t]).
        { rewrite <- E. apply list_elem_of_In, in_map, list_elem_of_In, Hs. }
        apply elem_of_app in Hin as [Hin|Hin].
        * apply elem_of_map_id in Hin as [s' [Hs' <-]]. apply Hst, Hs'.
        * apply list_elem_of_singleton in Hin. rewrite Hin. apply now_toString_nonempty.
    - destruct c; cbn in Hs; [|apply Hst, Hs].
      apply list_elem_of_filter in Hs as [_ Hs]. apply Hst, Hs. }
  apply Hgen. intros s Hs. inversion Hs.
Qed.

Lemma run_last_name_empty_witness :
  let ops := [OpType (lit "Ann") (lit "a@x.com") (lit "10") (lit "5"); OpSave 7] in
  let s := mkStudent (lit "7") (lit "Ann") [] (lit "a@x.com") (lit "10") (lit "5") in
  s ∈ students (run (mount_state ∅) ops) /\ last_name s = [].
Proof.
  intros ops s. assert (Hin : s ∈ students (run (mount_state ∅) ops)).
  { vm_compute. left. }
  split; [exact Hin|]. apply (run_last_name_empty ops s Hin).
Defined.

Lemma run_ids_nonempty_witness :
  let ops := [OpType (lit "Ann") (lit "a@x.com") (lit "10") (lit "5"); OpSave 7] in
  let s := mkStudent (lit "7") (lit "Ann") [] (lit "a@x.com") (lit "10") (lit "5") in
  s ∈ students (run (mount_state ∅) ops) /\ id s <> [].
Proof.
  intros ops s. assert (Hin : s ∈ students (run (mount_state ∅) ops)).
  { vm_compute. left. }
  split; [exact Hin|]. apply (run_ids_nonempty ops s Hin).
Defined.

End RunInvariants.
